(** * Node.js compatibility mode resolution of wrangler

    A shallow embedding of [getNodeCompat], of its helper
    [computeWorkerdCompatibilityFlags] and of the class [Flags] with the
    [Flag] objects it hands out, followed by the properties of the resolver.

    The source builds every [Flag] as a heap object whose [value] field is
    updated in place by its own method [impliedByAfterDate]; the embedding
    keeps that: flag objects live in an explicit store, [Flags.get] allocates
    one and returns a reference, and the method reads and writes the store.

    The handler of [wrangler deploy], which hands the compatibility date,
    the compatibility flags and [nodeCompat] over to the deployment, is
    embedded as well, over the functions of the modules it imports. *)

From Stdlib Require Import String Ascii NArith Bool List Permutation.
From stdpp Require Import base tactics option list strings.

(** ** The JavaScript primitives the resolver relies on *)

Module JS.

(** A string is a finite sequence of code units, compared unit by unit;
    the code units are modelled by [ascii], which covers every token and
    date literal of the source.
    [a < b] on strings: [false] when [b] is a prefix of [a], [true] when
    [a] is a proper prefix of [b], and otherwise the order of the code
    units at the first index where the two differ. *)
Fixpoint str_ltb (a b : string) : bool :=
  match a, b with
  | _, EmptyString => false
  | EmptyString, String _ _ => true
  | String c a', String d b' =>
      if Ascii.eqb c d then str_ltb a' b'
      else (N_of_ascii c <? N_of_ascii d)%N
  end.

(** [a >= b] is the negation of [a < b] (no operand is [NaN] here). *)
Definition str_geb (a b : string) : bool := negb (str_ltb a b).

(** [Array.prototype.includes] on an array of strings: some element is the
    same string as [x]. *)
Fixpoint includes (l : list string) (x : string) : bool :=
  match l with
  | [] => false
  | y :: l' => if String.eqb y x then true else includes l' x
  end.

End JS.

(** ** The store of flag objects *)

(** [class Flags]: two private, read-only fields. *)
Record Flags : Type := mkFlags {
  flags : list string;
  compatibilityDate : string
}.

(** An object built by [Flags.get]: the mutable field [value], and the
    [Flags] instance its arrow function [impliedByAfterDate] closes over
    (the [this] of the enclosing method). *)
Record FlagObj : Type := mkFlagObj {
  value : bool;
  closure_this : Flags
}.

Definition set_value (b : bool) (o : FlagObj) : FlagObj :=
  {| value := b; closure_this := closure_this o |}.

(** What the source calls a [Flag] is a reference to such an object. *)
Definition Flag : Type := nat.

Definition heap : Type := list FlagObj.

(** Computations over the store; [None] is a dangling reference. *)
Definition M (A : Type) : Type := heap → option (A * heap).

#[global] Instance M_ret : MRet M := λ A a h, Some (a, h).

#[global] Instance M_bind : MBind M := λ A B f m h,
  match m h with
  | Some (a, h') => f a h'
  | None => None
  end.

Definition alloc (o : FlagObj) : M Flag :=
  λ h, Some (length h, h ++ [o]).

Definition deref (r : Flag) : M FlagObj :=
  λ h, match h !! r with
       | Some o => Some (o, h)
       | None => None
       end.

Definition assign (r : Flag) (o : FlagObj) : M unit :=
  λ h, match h !! r with
       | Some _ => Some (tt, <[r := o]> h)
       | None => None
       end.

(** The value a computation returns when started in store [h]. *)
Definition evalM {A : Type} (m : M A) (h : heap) : option A :=
  fst <$> m h.

(** ** The resolver *)

Inductive NodeJSCompatMode : Type := legacy | als | v1 | v2 | null.

#[global] Instance NodeJSCompatMode_eq_dec : EqDecision NodeJSCompatMode.
Proof. solve_decision. Defined.

(** [Flags.get(name)] *)
Definition Flags_get (this : Flags) (name : string) : M Flag :=
  let noFlagName := "no_" +:+ name in
  alloc {| value := JS.includes (flags this) name
                    && negb (JS.includes (flags this) noFlagName);
           closure_this := this |}.

(** [flag.impliedByAfterDate(other, date)]:
    [flag.value ||= other.value && date >= this.compatibilityDate;
     return flag].  The assignment is skipped when [flag.value] is already
    true. *)
Definition impliedByAfterDate (flag other : Flag) (date : string) : M Flag :=
  o ← deref flag;
  (if value o then mret tt
   else
     o' ← deref other;
     assign flag
       (set_value
          (value o' && JS.str_geb date (compatibilityDate (closure_this o)))
          o));;
  mret flag.

Module Workerd.
(** The object literal [computeWorkerdCompatibilityFlags] returns. *)
Record t : Type := mk {
  hasNodejsAlsFlag : bool;
  hasNodejsCompatFlag : bool;
  hasNodejsCompatV2Flag : bool;
  hasExperimentalNodejsCompatV2Flag : bool
}.
End Workerd.

(** The properties of the returned literal are evaluated in source order. *)
Definition computeWorkerdCompatibilityFlags
    (compatibilityFlags : list string) (compatibilityDate : string)
    : M Workerd.t :=
  let flags := mkFlags compatibilityFlags compatibilityDate in
  nodejsCompatFlag ← Flags_get flags "nodejs_compat";
  alsFlag ← Flags_get flags "nodejs_als";
  alsObj ← deref alsFlag;
  compatObj ← deref nodejsCompatFlag;
  v2Flag ← Flags_get flags "nodejs_compat_v2";
  v2Flag' ← impliedByAfterDate v2Flag nodejsCompatFlag "2024-09-23";
  v2Obj ← deref v2Flag';
  mret {| Workerd.hasNodejsAlsFlag := value alsObj;
          Workerd.hasNodejsCompatFlag := value compatObj;
          Workerd.hasNodejsCompatV2Flag := value v2Obj;
          Workerd.hasExperimentalNodejsCompatV2Flag :=
            JS.includes compatibilityFlags "experimental:nodejs_compat_v2" |}.

(** The optional third argument [opts?: { nodeCompat?: boolean }]. *)
Record Opts : Type := mkOpts { nodeCompat : option bool }.

(** What [getNodeCompat] returns. *)
Record NodeCompat : Type := mkNodeCompat {
  mode : NodeJSCompatMode;
  hasNodejsAlsFlag : bool;
  hasNodejsCompatFlag : bool;
  hasNodejsCompatV2Flag : bool;
  hasExperimentalNodejsCompatV2Flag : bool
}.

(** [const { nodeCompat = false } = opts ?? {}] *)
Definition nodeCompat_of (opts : option Opts) : bool :=
  match opts with
  | Some o => default false (nodeCompat o)
  | None => false
  end.

(** The default of the first parameter, used when the argument is absent. *)
Definition default_compatibilityDate : string := "2000-01-01".

Definition getNodeCompat
    (compatibilityDate : option string) (compatibilityFlags : list string)
    (opts : option Opts) : M NodeCompat :=
  let compatibilityDate := default default_compatibilityDate compatibilityDate in
  let nodeCompat := nodeCompat_of opts in
  w ← computeWorkerdCompatibilityFlags compatibilityFlags compatibilityDate;
  let legacy_requested := bool_decide (nodeCompat = true) in
  let mode :=
    if Workerd.hasNodejsCompatV2Flag w then v2
    else if Workerd.hasNodejsCompatFlag w then v1
    else if Workerd.hasNodejsAlsFlag w then als
    else if legacy_requested then legacy
    else null in
  mret {| mode := mode;
          hasNodejsAlsFlag := Workerd.hasNodejsAlsFlag w;
          hasNodejsCompatFlag := Workerd.hasNodejsCompatFlag w;
          hasNodejsCompatV2Flag := Workerd.hasNodejsCompatV2Flag w;
          hasExperimentalNodejsCompatV2Flag :=
            Workerd.hasExperimentalNodejsCompatV2Flag w |}.

(** [{ nodeCompat: b }] *)
Definition opts_nodeCompat (b : bool) : option Opts :=
  Some {| nodeCompat := Some b |}.

(** ** Flag evaluation without a store

    The two-step reading of flag evaluation: the base presence of a flag,
    then the one implication the resolver wires in. *)

(** Step one: the token occurs and its negation does not. *)
Definition baseValue (flags : list string) (X : string) : bool :=
  JS.includes flags X && negb (JS.includes flags ("no_" +:+ X)).

(** The comparison made at the [impliedByAfterDate] call site, where [date]
    is the literal ["2024-09-23"] and the other operand is the
    compatibility date of the [Flags] instance. *)
Definition dateCondition (compatibilityDate : string) : bool :=
  JS.str_geb "2024-09-23" compatibilityDate.

(** Step two: only [nodejs_compat_v2] has an implication, from the base
    presence of [nodejs_compat]. *)
Definition resolvedFlag
    (flags : list string) (compatibilityDate : string) (X : string) : bool :=
  baseValue flags X
  || (if String.eqb X "nodejs_compat_v2"
      then baseValue flags "nodejs_compat" && dateCondition compatibilityDate
      else false).

(** The flag booleans of the two-step reading. *)
Definition resolvedFlags
    (flags : list string) (compatibilityDate : string) : Workerd.t :=
  {| Workerd.hasNodejsAlsFlag := resolvedFlag flags compatibilityDate "nodejs_als";
     Workerd.hasNodejsCompatFlag :=
       resolvedFlag flags compatibilityDate "nodejs_compat";
     Workerd.hasNodejsCompatV2Flag :=
       resolvedFlag flags compatibilityDate "nodejs_compat_v2";
     Workerd.hasExperimentalNodejsCompatV2Flag :=
       JS.includes flags "experimental:nodejs_compat_v2" |}.

(** The objects one call of [computeWorkerdCompatibilityFlags] leaves in the
    store, in allocation order: [nodejs_compat], [nodejs_als],
    [nodejs_compat_v2]. *)
Definition allocated
    (flags : list string) (compatibilityDate : string) : heap :=
  let this := mkFlags flags compatibilityDate in
  [ mkFlagObj (baseValue flags "nodejs_compat") this;
    mkFlagObj (baseValue flags "nodejs_als") this;
    mkFlagObj (resolvedFlag flags compatibilityDate "nodejs_compat_v2") this ].

(** The mode chosen from three flag booleans and the legacy request. *)
Definition selectMode (hasV2 hasCompat hasAls legacy_requested : bool)
    : NodeJSCompatMode :=
  if hasV2 then v2
  else if hasCompat then v1
  else if hasAls then als
  else if legacy_requested then legacy
  else null.

(** The record [getNodeCompat] returns, from the two-step reading. *)
Definition resolved
    (compatibilityDate : option string) (compatibilityFlags : list string)
    (opts : option Opts) : NodeCompat :=
  let d := default default_compatibilityDate compatibilityDate in
  let w := resolvedFlags compatibilityFlags d in
  {| mode := selectMode (Workerd.hasNodejsCompatV2Flag w)
               (Workerd.hasNodejsCompatFlag w) (Workerd.hasNodejsAlsFlag w)
               (nodeCompat_of opts);
     hasNodejsAlsFlag := Workerd.hasNodejsAlsFlag w;
     hasNodejsCompatFlag := Workerd.hasNodejsCompatFlag w;
     hasNodejsCompatV2Flag := Workerd.hasNodejsCompatV2Flag w;
     hasExperimentalNodejsCompatV2Flag :=
       Workerd.hasExperimentalNodejsCompatV2Flag w |}.

(** The boolean [getNodeCompat] reports for a flag name. *)
Definition reportedFlag (X : string) (r : NodeCompat) : bool :=
  if String.eqb X "nodejs_als" then hasNodejsAlsFlag r
  else if String.eqb X "nodejs_compat" then hasNodejsCompatFlag r
  else if String.eqb X "nodejs_compat_v2" then hasNodejsCompatV2Flag r
  else false.

(** [m] returns [a], whatever the store it is started in. *)
Definition returns {A : Type} (m : M A) (a : A) : Prop :=
  ∀ h : heap, evalM m h = Some a.

(** The tokens the resolver looks for. *)
Definition nodejs_tokens : list string :=
  [ "nodejs_als"; "no_nodejs_als";
    "nodejs_compat"; "no_nodejs_compat";
    "nodejs_compat_v2"; "no_nodejs_compat_v2" ].

Definition experimental_token : string := "experimental:nodejs_compat_v2".

Definition recognized : list string := experimental_token :: nodejs_tokens.

(** Two lists contain the same tokens among [ts]. *)
Definition agree_on (ts l1 l2 : list string) : Prop :=
  ∀ t, t ∈ ts → (t ∈ l1 ↔ t ∈ l2).

(** "Negation wins" for flag [X] on one input: with both [X] and [no_X] in
    the list, the boolean reported for [X] is [false]. *)
Definition negation_wins
    (d : option string) (fl : list string) (o : option Opts) (h : heap)
    (X : string) : Prop :=
  X ∈ fl → "no_" +:+ X ∈ fl →
  reportedFlag X <$> evalM (getNodeCompat d fl o) h = Some false.

(** The token [X] occurs in the list and [no_X] does not. *)
Definition present (fl : list string) (X : string) : Prop :=
  X ∈ fl ∧ "no_" +:+ X ∉ fl.

(** ** The handler of [wrangler deploy] (deploy/index.ts)

    [deployHandler] does its work through functions of other modules.  They
    are taken as parameters: each call is recorded in a trace and may
    return or throw. *)

Module Deploy.

(** A thrown value: the handler's own [UserError], or whatever a function
    of another module throws. *)
Inductive Thrown (X : Type) : Type :=
| UserError (message : string)
| Foreign (x : X).
Arguments UserError {X} message.
Arguments Foreign {X} x.

Inductive Outcome (X A : Type) : Type :=
| Returned (a : A)
| Threw (t : Thrown X).
Arguments Returned {X A} a.
Arguments Threw {X A} t.

(** One element of [args._]. *)
Inductive Positional (number : Type) : Type :=
| PString (s : string)
| PNumber (n : number).
Arguments PString {number} s.
Arguments PNumber {number} n.

(** The types declared in other modules. *)
Class ExternalTypes : Type := {
  JSNumber : Type;
  Config : Type;
  Entry : Type;
  AccountId : Type;
  AssetPaths : Type;
  KeyValues : Type;
  Rules : Type;
  ScriptName : Type;
  SendMetrics : Type;
  UsageModel : Type;
  Err : Type
}.

(** The parsed arguments, as [deployOptions] declares them; [config],
    [env] and [experimentalVersions] come from the options common to all
    commands.  [None] is [undefined]. *)
Module Args.
Record t {ET : ExternalTypes} : Type := mk {
  positional : list (Positional JSNumber);
  config : option string;
  script : option string;
  name : option string;
  bundle : option bool;
  noBundle : bool;
  outdir : option string;
  format : option string;
  compatibilityDate : option string;
  compatibilityFlags : option (list string);
  latest : bool;
  experimentalPublic : option string;
  public : option string;
  legacyAssets : option string;
  site : option string;
  siteInclude : option (list string);
  siteExclude : option (list string);
  var : option (list string);
  define : option (list string);
  alias : option (list string);
  triggers : option (list string);
  routes : option (list string);
  jsxFactory : option string;
  jsxFragment : option string;
  tsconfig : option string;
  minify : option bool;
  nodeCompat : option bool;
  dryRun : option bool;
  keepVars : bool;
  legacyEnv : option bool;
  logpush : option bool;
  uploadSourceMaps : option bool;
  oldAssetTtl : option JSNumber;
  dispatchNamespace : option string;
  env : option string;
  experimentalVersions : option bool
}.
End Args.

(** The object literal passed to [deploy]. *)
Module Props.
Record t {ET : ExternalTypes} : Type := mk {
  config : Config;
  accountId : option AccountId;
  name : ScriptName;
  rules : Rules;
  entry : Entry;
  env : option string;
  compatibilityDate : option string;
  compatibilityFlags : option (list string);
  vars : KeyValues;
  defines : KeyValues;
  alias : KeyValues;
  triggers : option (list string);
  jsxFactory : option string;
  jsxFragment : option string;
  tsconfig : option string;
  routes : option (list string);
  assetPaths : AssetPaths;
  legacyEnv : bool;
  minify : option bool;
  nodeCompat : option bool;
  isWorkersSite : bool;
  outDir : option string;
  dryRun : option bool;
  noBundle : bool;
  keepVars : bool;
  logpush : option bool;
  uploadSourceMaps : option bool;
  oldAssetTtl : option JSNumber;
  projectRoot : option string;
  dispatchNamespace : option string;
  experimentalVersions : option bool
}.
End Props.

(** The functions of other modules, and the fields of [Config] and [Entry]
    the handler reads.  The [_truthy] fields tell whether the field of the
    configuration is truthy. *)
Class ExternalCalls {ET : ExternalTypes} : Type := {
  printWranglerBanner : Outcome Err unit;
  findWranglerToml : string → Outcome Err (option string);
  dirname : string → string;
  readConfig : option string → Args.t → Outcome Err Config;
  getEntry : Args.t → Config → string → Outcome Err Entry;
  sendMetricsEvent : string → bool → SendMetrics → Outcome Err unit;
  collectKeyValues : option (list string) → Outcome Err KeyValues;
  requireAuth : Config → Outcome Err AccountId;
  getAssetPaths : Config → option string → Outcome Err AssetPaths;
  getSiteAssetPaths :
    Config → option string → option (list string) → option (list string) →
    Outcome Err AssetPaths;
  getScriptName : Args.t → Config → Outcome Err ScriptName;
  getRules : Config → Outcome Err Rules;
  isLegacyEnv : Config → Outcome Err bool;
  now_toISOString : string;
  deploy : Props.t → Outcome Err unit;
  file : Entry → string;
  usage_model : Config → option UsageModel;
  send_metrics : Config → SendMetrics;
  legacy_assets_truthy : Config → bool;
  site_truthy : Config → bool;
  no_bundle_truthy : Config → bool
}.

Section Handler.

Context {ET : ExternalTypes} {EC : ExternalCalls}.

(** The calls that leave this file, in the order they are made. *)
Inductive Event : Type :=
| CallPrintWranglerBanner
| LoggerWarn (message : string)
| CallFindWranglerToml (dir : string)
| CallReadConfig (configPath : option string)
| CallGetEntry
| CallSendMetricsEvent (event : string) (usesTypeScript : bool)
| CallCollectKeyValues (pairs : option (list string))
| CallRequireAuth (config : Config)
| CallGetAssetPaths (legacyAssets : option string)
| CallGetSiteAssetPaths
| CallGetScriptName
| CallGetRules
| CallIsLegacyEnv
| CallDeploy (props : Props.t).

(** A computation extends the trace and returns or throws. *)
Definition IO (A : Type) : Type := list Event → Outcome Err A * list Event.

#[global] Instance IO_ret : MRet IO := λ A a tr, (Returned a, tr).

#[global] Instance IO_bind : MBind IO := λ A B f m tr,
  match m tr with
  | (Returned a, tr') => f a tr'
  | (Threw t, tr') => (Threw t, tr')
  end.

Definition call {A : Type} (ev : Event) (r : Outcome Err A) : IO A :=
  λ tr, (r, tr ++ [ev]).

Definition throw {A : Type} (t : Thrown Err) : IO A :=
  λ tr, (Threw t, tr).

(** [logger.warn(message)]: the message is recorded, nothing is thrown. *)
Definition warn (message : string) : IO unit :=
  λ tr, (Returned tt, tr ++ [LoggerWarn message]).

(** Truthiness of a [string | undefined] and of a [boolean | undefined]. *)
Definition truthy_string (s : option string) : bool :=
  match s with
  | Some s => negb (String.eqb s "")
  | None => false
  end.

Definition truthy_bool (b : option bool) : bool := default false b.

(** [s.endsWith(suffix)] *)
Fixpoint endsWith (s suffix : string) : bool :=
  if String.eqb s suffix then true
  else match s with
       | EmptyString => false
       | String _ s' => endsWith s' suffix
       end.

(** The test of the regular expression [\.tsx?$]: the string ends with
    [.ts] or with [.tsx]. *)
Definition usesTypeScript (file : string) : bool :=
  endsWith file ".ts" || endsWith file ".tsx".

(** [args._[0] === "publish"] *)
Definition first_is_publish (l : list (Positional JSNumber)) : bool :=
  match l with
  | PString s :: _ => String.eqb s "publish"
  | _ => false
  end.

Definition nl : string := String (ascii_of_nat 10) EmptyString.

Definition usage_model_warning : string :=
  "The `usage_model` defined in wrangler.toml is deprecated and no longer used. Visit our developer docs for details: https://developers.cloudflare.com/workers/wrangler/configuration/#usage-model".

Definition publish_warning : string :=
  "`wrangler publish` is deprecated and will be removed in the next major version."
  +:+ nl +:+
  "Please use `wrangler deploy` instead, which accepts exactly the same arguments.".

Definition public_error : string :=
  "The --public field has been renamed to --assets".

Definition experimental_public_error : string :=
  "The --experimental-public field has been renamed to --assets".

Definition assets_and_sites_error : string :=
  "Cannot use Assets and Workers Sites in the same Worker.".

Definition legacy_assets_warning : string :=
  "The behavior of the experimental --assets command will be changing on August 15th."
  +:+ nl +:+
  "Releases of wrangler after this date will no longer support current functionality."
  +:+ nl +:+
  "The --legacy-assets command will preserve current functionality after this point, but will also be deprecated towards the end of the year.".

Definition latest_warning : string :=
  "Using the latest version of the Workers runtime. To silence this warning, please choose a specific version of the runtime with --compatibility-date, or add a compatibility_date to your wrangler.toml."
  +:+ nl.

Definition standardPricingWarning (config : Config) : IO unit :=
  match usage_model config with
  | Some _ => warn usage_model_warning
  | None => mret tt
  end.

Definition deployHandler (args : Args.t) : IO unit :=
  call CallPrintWranglerBanner printWranglerBanner;;
  (if first_is_publish (Args.positional args)
   then warn publish_warning else mret tt);;
  configPath ←
    (if truthy_string (Args.config args) then mret (Args.config args)
     else match Args.script args with
          | Some script =>
              if truthy_string (Some script)
              then call (CallFindWranglerToml (dirname script))
                        (findWranglerToml (dirname script))
              else mret (Some script)
          | None => mret None
          end);
  let projectRoot :=
    match configPath with
    | Some p => if truthy_string (Some p) then Some (dirname p) else Some p
    | None => None
    end in
  config ← call (CallReadConfig configPath) (readConfig configPath args);
  entry ← call CallGetEntry (getEntry args config "deploy");
  call (CallSendMetricsEvent "deploy worker script"
          (usesTypeScript (file entry)))
       (sendMetricsEvent "deploy worker script"
          (usesTypeScript (file entry)) (send_metrics config));;
  (if truthy_string (Args.public args)
   then throw (UserError public_error) else mret tt);;
  (if truthy_string (Args.experimentalPublic args)
   then throw (UserError experimental_public_error) else mret tt);;
  (if (truthy_string (Args.legacyAssets args) || legacy_assets_truthy config)
      && (truthy_string (Args.site args) || site_truthy config)
   then throw (UserError assets_and_sites_error) else mret tt);;
  (if truthy_string (Args.legacyAssets args)
   then warn legacy_assets_warning else mret tt);;
  (if Args.latest args then warn latest_warning else mret tt);;
  cliVars ← call (CallCollectKeyValues (Args.var args))
                 (collectKeyValues (Args.var args));
  cliDefines ← call (CallCollectKeyValues (Args.define args))
                    (collectKeyValues (Args.define args));
  cliAlias ← call (CallCollectKeyValues (Args.alias args))
                  (collectKeyValues (Args.alias args));
  accountId ←
    (if truthy_bool (Args.dryRun args) then mret None
     else a ← call (CallRequireAuth config) (requireAuth config); mret (Some a));
  assetPaths ←
    (if truthy_string (Args.legacyAssets args) || legacy_assets_truthy config
     then call (CallGetAssetPaths (Args.legacyAssets args))
               (getAssetPaths config (Args.legacyAssets args))
     else call CallGetSiteAssetPaths
               (getSiteAssetPaths config (Args.site args)
                  (Args.siteInclude args) (Args.siteExclude args)));
  (if negb (truthy_bool (Args.dryRun args))
   then standardPricingWarning config else mret tt);;
  name ← call CallGetScriptName (getScriptName args config);
  rules ← call CallGetRules (getRules config);
  legacyEnv ← call CallIsLegacyEnv (isLegacyEnv config);
  let props :=
    {| Props.config := config;
       Props.accountId := accountId;
       Props.name := name;
       Props.rules := rules;
       Props.entry := entry;
       Props.env := Args.env args;
       Props.compatibilityDate :=
         if Args.latest args
         then Some (String.substring 0 10 now_toISOString)
         else Args.compatibilityDate args;
       Props.compatibilityFlags := Args.compatibilityFlags args;
       Props.vars := cliVars;
       Props.defines := cliDefines;
       Props.alias := cliAlias;
       Props.triggers := Args.triggers args;
       Props.jsxFactory := Args.jsxFactory args;
       Props.jsxFragment := Args.jsxFragment args;
       Props.tsconfig := Args.tsconfig args;
       Props.routes := Args.routes args;
       Props.assetPaths := assetPaths;
       Props.legacyEnv := legacyEnv;
       Props.minify := Args.minify args;
       Props.nodeCompat := Args.nodeCompat args;
       Props.isWorkersSite :=
         truthy_string (Args.site args) || site_truthy config;
       Props.outDir := Args.outdir args;
       Props.dryRun := Args.dryRun args;
       Props.noBundle :=
         negb (match Args.bundle args with
               | Some b => b
               | None => negb (no_bundle_truthy config)
               end);
       Props.keepVars := Args.keepVars args;
       Props.logpush := Args.logpush args;
       Props.uploadSourceMaps := Args.uploadSourceMaps args;
       Props.oldAssetTtl := Args.oldAssetTtl args;
       Props.projectRoot := projectRoot;
       Props.dispatchNamespace := Args.dispatchNamespace args;
       Props.experimentalVersions := Args.experimentalVersions args |} in
  call (CallDeploy props) (deploy props).

(** The calls made by one run of the handler, and how the run ends. *)
Definition trace_of (args : Args.t) : list Event :=
  (deployHandler args []).2.

Definition outcome_of (args : Args.t) : Outcome Err unit :=
  (deployHandler args []).1.

(** Every event [m] adds to the trace satisfies [P], and the outcome of [m]
    satisfies [Q]. *)
Definition emits {A : Type} (P : Event → Prop) (Q : Outcome Err A → Prop)
    (m : IO A) : Prop :=
  ∀ tr, ∃ new, (m tr).2 = tr ++ new ∧ Forall P new ∧ Q (m tr).1.

(** The three checks made before anything is authenticated or deployed. *)
Definition rejected (args : Args.t) (config : Config) : bool :=
  truthy_string (Args.public args)
  || truthy_string (Args.experimentalPublic args)
  || ((truthy_string (Args.legacyAssets args) || legacy_assets_truthy config)
      && (truthy_string (Args.site args) || site_truthy config)).

(** [t] was thrown by one of the calls made before the checks. *)
Definition thrown_before_checks (args : Args.t) (t : Thrown Err) : Prop :=
  printWranglerBanner = Threw t
  ∨ (∃ dir, findWranglerToml dir = Threw t)
  ∨ (∃ configPath, readConfig configPath args = Threw t)
  ∨ (∃ config, getEntry args config "deploy" = Threw t)
  ∨ (∃ event ts sm, sendMetricsEvent event ts sm = Threw t).

End Handler.

(** A small world to run the handler in: every call returns. *)
Module Example.

#[export] Instance types : ExternalTypes := {|
  JSNumber := nat;
  Config := option string;
  Entry := string;
  AccountId := string;
  AssetPaths := option string;
  KeyValues := list string;
  Rules := unit;
  ScriptName := string;
  SendMetrics := unit;
  UsageModel := unit;
  Err := string
|}.

#[export] Instance calls : ExternalCalls := {|
  printWranglerBanner := Returned tt;
  findWranglerToml := λ dir, Returned (Some (dir +:+ "/wrangler.toml"));
  dirname := λ p, "dir";
  readConfig := λ configPath _, Returned configPath;
  getEntry := λ args _ _, Returned (default "index.js" (Args.script args));
  sendMetricsEvent := λ _ _ _, Returned tt;
  collectKeyValues := λ l, Returned (default [] l);
  requireAuth := λ _, Returned "account";
  getAssetPaths := λ _ a, Returned a;
  getSiteAssetPaths := λ _ s _ _, Returned s;
  getScriptName := λ args _, Returned (default "worker" (Args.name args));
  getRules := λ _, Returned tt;
  isLegacyEnv := λ _, Returned false;
  now_toISOString := "2024-10-01T12:00:00.000Z";
  deploy := λ _, Returned tt;
  file := λ e, e;
  usage_model := λ _, Some tt;
  send_metrics := λ _, tt;
  legacy_assets_truthy := λ _, false;
  site_truthy := λ _, false;
  no_bundle_truthy := λ _, false
|}.

(** [wrangler deploy src/index.ts], with a few options set. *)
Definition args (dryRun : option bool) (public : option string)
    (latest : bool) : Args.t :=
  {| Args.positional := [PString "deploy"; PString "src/index.ts"];
     Args.config := None;
     Args.script := Some "src/index.ts";
     Args.name := None;
     Args.bundle := None;
     Args.noBundle := false;
     Args.outdir := None;
     Args.format := None;
     Args.compatibilityDate := Some "2024-09-23";
     Args.compatibilityFlags := Some ["nodejs_compat"];
     Args.latest := latest;
     Args.experimentalPublic := None;
     Args.public := public;
     Args.legacyAssets := None;
     Args.site := None;
     Args.siteInclude := None;
     Args.siteExclude := None;
     Args.var := None;
     Args.define := None;
     Args.alias := None;
     Args.triggers := None;
     Args.routes := None;
     Args.jsxFactory := None;
     Args.jsxFragment := None;
     Args.tsconfig := None;
     Args.minify := None;
     Args.nodeCompat := None;
     Args.dryRun := dryRun;
     Args.keepVars := false;
     Args.legacyEnv := None;
     Args.logpush := None;
     Args.uploadSourceMaps := None;
     Args.oldAssetTtl := None;
     Args.dispatchNamespace := None;
     Args.env := None;
     Args.experimentalVersions := None |}.

End Example.

End Deploy.


(** * Properties *)

(** ** The primitives *)

Section Primitives.

Lemma includes_elem_of (l : list string) (x : string) :
  JS.includes l x = true ↔ x ∈ l.
Proof.
  induction l as [|y l IH]; simpl.
  - split; [discriminate | by intros ?%elem_of_nil].
  - rewrite elem_of_cons. destruct (String.eqb_spec y x) as [->|Hne].
    + tauto.
    + rewrite IH. split; [tauto | intros [->|?]; [done | tauto]].
Qed.

Lemma includes_bool_decide (l : list string) (x : string) :
  JS.includes l x = bool_decide (x ∈ l).
Proof.
  apply eq_true_iff_eq. rewrite includes_elem_of.
  symmetry. apply bool_decide_eq_true.
Qed.

Lemma baseValue_true (l : list string) (X : string) :
  baseValue l X = true ↔ X ∈ l ∧ "no_" +:+ X ∉ l.
Proof.
  unfold baseValue. rewrite andb_true_iff, negb_true_iff.
  rewrite <- not_true_iff_false, !includes_elem_of. tauto.
Qed.

Lemma baseValue_negated (l : list string) (X : string) :
  "no_" +:+ X ∈ l → baseValue l X = false.
Proof.
  intros Hno. apply not_true_iff_false.
  rewrite baseValue_true. tauto.
Qed.

End Primitives.

(** ** Running the store computations *)

Section Run.

Lemma bind_run {A B : Type} (m : M A) (f : A → M B) (h : heap) :
  (m ≫= f) h = match m h with
               | Some (a, h') => f a h'
               | None => None
               end.
Proof. reflexivity. Qed.

Lemma Flags_get_run (this : Flags) (name : string) (h : heap) :
  Flags_get this name h
  = Some (length h,
          h ++ [ {| value := baseValue (flags this) name;
                    closure_this := this |} ]).
Proof. reflexivity. Qed.

Lemma deref_run (r : Flag) (h : heap) (o : FlagObj) :
  h !! r = Some o → deref r h = Some (o, h).
Proof. unfold deref. by intros ->. Qed.

(** The method call, for any two live references; [flag] and [other] may
    be the same object. *)
Lemma impliedByAfterDate_run (flag other : Flag) (date : string)
    (h : heap) (o o' : FlagObj) :
  h !! flag = Some o →
  h !! other = Some o' →
  impliedByAfterDate flag other date h
  = Some (flag,
          <[flag := set_value
                      (value o
                       || (value o'
                           && JS.str_geb date
                                (compatibilityDate (closure_this o))))
                      o]> h).
Proof.
  intros Hf Ho. unfold impliedByAfterDate.
  rewrite bind_run, (deref_run _ _ _ Hf).
  destruct o as [[] this]; simpl.
  - rewrite bind_run. unfold set_value, mret, M_ret. simpl.
    do 2 f_equal. symmetry. by apply list_insert_id.
  - rewrite !bind_run, (deref_run _ _ _ Ho). unfold assign.
    by rewrite Hf.
Qed.

Lemma resolvedFlag_base (fl : list string) (d X : string) :
  X ≠ "nodejs_compat_v2" → resolvedFlag fl d X = baseValue fl X.
Proof.
  intros HX. unfold resolvedFlag.
  destruct (String.eqb_spec X "nodejs_compat_v2"); [done |].
  apply orb_false_r.
Qed.

Lemma computeWorkerdCompatibilityFlags_run
    (fl : list string) (d : string) (h : heap) :
  computeWorkerdCompatibilityFlags fl d h
  = Some (resolvedFlags fl d, h ++ allocated fl d).
Proof.
  unfold computeWorkerdCompatibilityFlags.
  rewrite bind_run, Flags_get_run.
  rewrite bind_run, Flags_get_run.
  set (this := mkFlags fl d).
  set (oc := mkFlagObj (baseValue (flags this) "nodejs_compat") this).
  set (oa := mkFlagObj (baseValue (flags this) "nodejs_als") this).
  rewrite bind_run, (deref_run _ _ oa)
    by (by apply list_lookup_middle).
  rewrite bind_run, (deref_run _ _ oc)
    by (rewrite <- (assoc_L (++)); by apply list_lookup_middle).
  rewrite bind_run, Flags_get_run.
  set (ov := mkFlagObj (baseValue (flags this) "nodejs_compat_v2") this).
  rewrite bind_run,
    (impliedByAfterDate_run _ _ _ _ ov oc)
    by first [ by apply list_lookup_middle
             | rewrite <- !(assoc_L (++)); by apply list_lookup_middle ].
  rewrite bind_run.
  erewrite deref_run; cycle 1.
  { apply list_lookup_insert_eq. rewrite !length_app. simpl. lia. }
  unfold mret, M_ret. f_equal. f_equal.
  - unfold resolvedFlags. f_equal; simpl.
    + by rewrite resolvedFlag_base.
    + by rewrite resolvedFlag_base.
  - rewrite <- !(assoc_L (++)). simpl.
    rewrite length_app. simpl.
    exact (insert_app_r h [oc; oa; ov] 2 _).
Qed.

Lemma getNodeCompat_run
    (d : option string) (fl : list string) (o : option Opts) (h : heap) :
  getNodeCompat d fl o h
  = Some (resolved d fl o,
          h ++ allocated fl (default default_compatibilityDate d)).
Proof.
  unfold getNodeCompat.
  rewrite bind_run, computeWorkerdCompatibilityFlags_run.
  unfold mret, M_ret, resolved, selectMode. do 3 f_equal.
  by destruct (nodeCompat_of o).
Qed.

Lemma getNodeCompat_eval
    (d : option string) (fl : list string) (o : option Opts) (h : heap) :
  evalM (getNodeCompat d fl o) h = Some (resolved d fl o).
Proof. unfold evalM. by rewrite getNodeCompat_run. Qed.

Lemma getNodeCompat_returns
    (d : option string) (fl : list string) (o : option Opts) :
  returns (getNodeCompat d fl o) (resolved d fl o).
Proof. intros h. apply getNodeCompat_eval. Qed.

Lemma returns_inj {A : Type} (m : M A) (a b : A) :
  returns m a → returns m b → a = b.
Proof. intros Ha Hb. specialize (Ha []). specialize (Hb []). congruence. Qed.

End Run.

(** ** Dependence on the flag list *)

Section Tokens.

Implicit Types (l fl la lb : list string) (t X : string).

Lemma includes_ext l1 l2 t :
  (t ∈ l1 ↔ t ∈ l2) → JS.includes l1 t = JS.includes l2 t.
Proof.
  intros H. rewrite !includes_bool_decide. by apply bool_decide_ext.
Qed.

Lemma baseValue_ext l1 l2 X :
  (X ∈ l1 ↔ X ∈ l2) →
  ("no_" +:+ X ∈ l1 ↔ "no_" +:+ X ∈ l2) →
  baseValue l1 X = baseValue l2 X.
Proof.
  intros H1 H2. unfold baseValue.
  by rewrite (includes_ext l1 l2 X), (includes_ext l1 l2 ("no_" +:+ X)).
Qed.

Lemma agree_on_mono ts ts' l1 l2 :
  ts' ⊆ ts → agree_on ts l1 l2 → agree_on ts' l1 l2.
Proof. intros Hsub H t Ht. apply H, Hsub, Ht. Qed.

Lemma agree_on_baseValue l1 l2 X :
  X ∈ nodejs_tokens → "no_" +:+ X ∈ nodejs_tokens →
  agree_on nodejs_tokens l1 l2 → baseValue l1 X = baseValue l2 X.
Proof. intros HX Hno H. apply baseValue_ext; by apply H. Qed.

Ltac token :=
  unfold recognized, nodejs_tokens, experimental_token;
  try intros ?; rewrite ?list_elem_of_In; simpl; tauto.

(** The three flag booleans and the mode depend on the list only through
    the six [nodejs_*] tokens. *)
Lemma resolved_flags_ext d o l1 l2 :
  agree_on nodejs_tokens l1 l2 →
  mode (resolved d l1 o) = mode (resolved d l2 o)
  ∧ hasNodejsAlsFlag (resolved d l1 o) = hasNodejsAlsFlag (resolved d l2 o)
  ∧ hasNodejsCompatFlag (resolved d l1 o)
    = hasNodejsCompatFlag (resolved d l2 o)
  ∧ hasNodejsCompatV2Flag (resolved d l1 o)
    = hasNodejsCompatV2Flag (resolved d l2 o).
Proof.
  intros H. unfold resolved, resolvedFlags, resolvedFlag. simpl.
  rewrite (agree_on_baseValue l1 l2 "nodejs_als") by (done || token).
  rewrite (agree_on_baseValue l1 l2 "nodejs_compat") by (done || token).
  rewrite (agree_on_baseValue l1 l2 "nodejs_compat_v2") by (done || token).
  done.
Qed.

(** The whole result depends on the list only through the recognized
    tokens. *)
Lemma resolved_ext d o l1 l2 :
  agree_on recognized l1 l2 → resolved d l1 o = resolved d l2 o.
Proof.
  intros H.
  assert (Hn : agree_on nodejs_tokens l1 l2).
  { apply (agree_on_mono recognized); [token | done]. }
  destruct (resolved_flags_ext d o l1 l2 Hn) as (Hm & Ha & Hc & Hv).
  assert (He : hasExperimentalNodejsCompatV2Flag (resolved d l1 o)
               = hasExperimentalNodejsCompatV2Flag (resolved d l2 o)).
  { simpl. apply includes_ext, H. token. }
  destruct (resolved d l1 o), (resolved d l2 o). simpl in *. congruence.
Qed.

Lemma agree_on_insert ts la lb t :
  t ∉ ts → agree_on ts (la ++ t :: lb) (la ++ lb).
Proof.
  intros Ht u Hu. rewrite !elem_of_app, elem_of_cons.
  split; [intros [?|[->|?]]; tauto | tauto].
Qed.

Lemma agree_on_duplicate ts la lb t :
  t ∈ la ++ lb → agree_on ts (la ++ t :: lb) (la ++ lb).
Proof.
  intros Ht u Hu. rewrite !elem_of_app, elem_of_cons.
  rewrite elem_of_app in Ht.
  split; [intros [?|[->|?]]; tauto | tauto].
Qed.

Lemma agree_on_filter ts l t :
  t ∉ ts → agree_on ts l (filter (λ u, u ≠ t) l).
Proof.
  intros Ht u Hu. rewrite list_elem_of_filter.
  split; [|tauto]. intros Hin. split; [|done]. by intros ->.
Qed.

Lemma agree_on_Permutation ts l1 l2 :
  l1 ≡ₚ l2 → agree_on ts l1 l2.
Proof. intros Hp u _. by rewrite Hp. Qed.

End Tokens.

(** ** What the code computes for a lone [nodejs_compat] *)

Ltac in_list := apply list_elem_of_In; simpl; tauto.
Ltac not_in_list :=
  let H := fresh in
  intros H; apply list_elem_of_In in H; simpl in H; intuition discriminate.

Section DateGate.

(** With [nodejs_compat] present, not negated, and no [nodejs_compat_v2]
    token, the mode is decided by the comparison of the call site alone:
    [v2] when ["2024-09-23" >= compatibilityDate], [v1] otherwise. *)
Lemma getNodeCompat_nodejs_compat_mode (d : option string)
    (fl : list string) (o : option Opts) :
  "nodejs_compat" ∈ fl → "no_nodejs_compat" ∉ fl →
  "nodejs_compat_v2" ∉ fl →
  ∃ r, returns (getNodeCompat d fl o) r
       ∧ mode r = if JS.str_geb "2024-09-23"
                       (default default_compatibilityDate d)
                  then v2 else v1.
Proof.
  intros Hc Hnc Hv.
  exists (resolved d fl o). split; [apply getNodeCompat_returns |].
  assert (Hb : baseValue fl "nodejs_compat" = true)
    by (by apply baseValue_true).
  assert (Hbv : baseValue fl "nodejs_compat_v2" = false).
  { apply not_true_iff_false. rewrite baseValue_true. tauto. }
  unfold resolved, resolvedFlags, resolvedFlag, dateCondition. simpl.
  rewrite Hb, Hbv. simpl. rewrite !orb_false_r.
  by destruct (JS.str_geb _ _).
Qed.

End DateGate.

(** ** The claims *)

(** C1 (the code departs from the claim).  The claim: with a lone
    [nodejs_compat], the mode is [v2] exactly when the compatibility date is
    on or after 2024-09-23.  The code compares the other way round: the day
    before the threshold already gives [v2], the threshold day gives [v2],
    and the day after gives [v1]. *)
Theorem C1_date_gate_is_reversed :
  mode <$> evalM (getNodeCompat (Some "2024-09-22") ["nodejs_compat"]
                    (opts_nodeCompat false)) [] = Some v2
  ∧ mode <$> evalM (getNodeCompat (Some "2024-09-23") ["nodejs_compat"]
                      (opts_nodeCompat false)) [] = Some v2
  ∧ mode <$> evalM (getNodeCompat (Some "2024-09-24") ["nodejs_compat"]
                      (opts_nodeCompat false)) [] = Some v1.
Proof. repeat split; reflexivity. Qed.

(** C2 (the code departs from the claim).  An absent date is read as
    2000-01-01, as the claim says; but under that default a lone
    [nodejs_compat] yields [v2], not [v1]. *)
Theorem C2_default_date_gives_v2 :
  (∀ (fl : list string) (o : option Opts) (h : heap),
     getNodeCompat None fl o h = getNodeCompat (Some "2000-01-01") fl o h)
  ∧ mode <$> evalM (getNodeCompat None ["nodejs_compat"]
                      (opts_nodeCompat false)) [] = Some v2.
Proof. split; [intros; reflexivity | reflexivity]. Qed.

(** C3, as stated, fails: with [nodejs_compat_v2], its negation and an
    un-negated [nodejs_compat] in the list, on the threshold date, the
    boolean reported for [nodejs_compat_v2] is [true]. *)
Lemma C3_negation_loses_to_implication :
  hasNodejsCompatV2Flag
    <$> evalM (getNodeCompat (Some "2024-09-23")
                 ["nodejs_compat_v2"; "no_nodejs_compat_v2"; "nodejs_compat"]
                 (opts_nodeCompat false)) [] = Some true
  ∧ ¬ negation_wins (Some "2024-09-23")
        ["nodejs_compat_v2"; "no_nodejs_compat_v2"; "nodejs_compat"]
        (opts_nodeCompat false) [] "nodejs_compat_v2".
Proof.
  split; [reflexivity |].
  intros H.
  assert (Hr : Some true = Some false); [| discriminate Hr].
  apply H; in_list.
Qed.

(** C3 (amended).  For [X] among [nodejs_als], [nodejs_compat],
    [nodejs_compat_v2] and a list holding both [X] and [no_X], the boolean
    reported for [X] is [false], provided that, for [nodejs_compat_v2],
    [nodejs_compat] is not itself present un-negated; and a list holding
    both [nodejs_compat] and [no_nodejs_compat] never gives mode [v1]. *)
Theorem C3_negation_wins_without_implication
    (d : option string) (fl : list string) (o : option Opts) (h : heap)
    (X : string) :
  X ∈ ["nodejs_als"; "nodejs_compat"; "nodejs_compat_v2"] →
  (X = "nodejs_compat_v2" →
   "nodejs_compat" ∉ fl ∨ "no_nodejs_compat" ∈ fl) →
  negation_wins d fl o h X
  ∧ ("nodejs_compat" ∈ fl → "no_nodejs_compat" ∈ fl →
     ∃ r, evalM (getNodeCompat d fl o) h = Some r ∧ mode r ≠ v1).
Proof.
  intros HX Hv2. split.
  - intros Hin Hno. rewrite getNodeCompat_eval. simpl. f_equal.
    pose proof (baseValue_negated fl X Hno) as Hb.
    apply list_elem_of_In in HX. simpl in HX.
    destruct HX as [<-|[<-|[<-|[]]]]; unfold reportedFlag; simpl.
    + by rewrite resolvedFlag_base.
    + by rewrite resolvedFlag_base.
    + unfold resolvedFlag. rewrite Hb. simpl.
      assert (Hc : baseValue fl "nodejs_compat" = false).
      { apply not_true_iff_false. rewrite baseValue_true.
        destruct (Hv2 eq_refl); tauto. }
      by rewrite Hc.
  - intros Hc Hnc. exists (resolved d fl o).
    split; [apply getNodeCompat_eval |].
    pose proof (baseValue_negated fl "nodejs_compat" Hnc) as Hb.
    unfold resolved, resolvedFlags, resolvedFlag, selectMode. simpl.
    rewrite Hb. simpl. rewrite !orb_false_r.
    by repeat case_match.
Qed.

Lemma C3_negation_wins_without_implication_witness :
  let fl := ["no_nodejs_compat"; "nodejs_compat"; "nodejs_compat_v2";
             "no_nodejs_compat_v2"; "nodejs_compat"] in
  "nodejs_compat_v2" ∈ ["nodejs_als"; "nodejs_compat"; "nodejs_compat_v2"]
  ∧ ("nodejs_compat" ∉ fl ∨ "no_nodejs_compat" ∈ fl)
  ∧ negation_wins (Some "2024-09-23") fl None [] "nodejs_compat_v2"
  ∧ ("nodejs_compat" ∈ fl → "no_nodejs_compat" ∈ fl →
     ∃ r, evalM (getNodeCompat (Some "2024-09-23") fl None) [] = Some r
          ∧ mode r ≠ v1).
Proof.
  intros fl.
  split; [in_list |]. split; [right; in_list |].
  apply (C3_negation_wins_without_implication
           (Some "2024-09-23") fl None [] "nodejs_compat_v2").
  - in_list.
  - intros _. right. in_list.
Defined.

(** C4.  The mode is chosen by strict priority over the reported flags:
    [v2] if [nodejs_compat_v2] resolved true, else [v1] if [nodejs_compat]
    did, else [als] if [nodejs_als] did, else [legacy] if [nodeCompat] is
    true, else [null]; and with both [nodejs_compat_v2] and [nodejs_als] in
    the list on 2024-09-23 the mode is [v2]. *)
Theorem C4_mode_priority
    (d : option string) (fl : list string) (o : option Opts) :
  (∃ r, returns (getNodeCompat d fl o) r
        ∧ mode r = (if hasNodejsCompatV2Flag r then v2
                    else if hasNodejsCompatFlag r then v1
                    else if hasNodejsAlsFlag r then als
                    else if nodeCompat_of o then legacy
                    else null))
  ∧ (∃ r, returns (getNodeCompat (Some "2024-09-23")
                     ["nodejs_compat_v2"; "nodejs_als"]
                     (opts_nodeCompat false)) r
          ∧ hasNodejsAlsFlag r = true ∧ mode r = v2).
Proof.
  split.
  - exists (resolved d fl o). split; [apply getNodeCompat_returns | done].
  - eexists. split; [apply getNodeCompat_returns | done].
Qed.

(** C5.  With an empty flag list the mode is [legacy] when [nodeCompat] is
    true and [null] when it is false, for every date; and as soon as one of
    the three reported flags is true the mode is not [legacy], whatever
    [nodeCompat] is. *)
Theorem C5_legacy_fallback (d : option string) :
  (∃ r, returns (getNodeCompat d [] (opts_nodeCompat true)) r
        ∧ mode r = legacy)
  ∧ (∃ r, returns (getNodeCompat d [] (opts_nodeCompat false)) r
          ∧ mode r = null)
  ∧ (∀ (fl : list string) (o : option Opts),
       ∃ r, returns (getNodeCompat d fl o) r
            ∧ (hasNodejsAlsFlag r = true ∨ hasNodejsCompatFlag r = true
               ∨ hasNodejsCompatV2Flag r = true →
               mode r ≠ legacy)).
Proof.
  split; [| split].
  - eexists. split; [apply getNodeCompat_returns | done].
  - eexists. split; [apply getNodeCompat_returns | done].
  - intros fl o. exists (resolved d fl o).
    split; [apply getNodeCompat_returns |].
    unfold resolved, selectMode. simpl.
    intros [H|[H|H]]; rewrite H; by repeat case_match.
Qed.

Lemma C5_legacy_fallback_witness :
  ∃ r, returns (getNodeCompat (Some "2024-01-01") ["nodejs_als"]
                  (opts_nodeCompat true)) r
       ∧ (hasNodejsAlsFlag r = true ∨ hasNodejsCompatFlag r = true
          ∨ hasNodejsCompatV2Flag r = true)
       ∧ mode r ≠ legacy.
Proof.
  destruct (C5_legacy_fallback (Some "2024-01-01")) as (_ & _ & H).
  destruct (H ["nodejs_als"] (opts_nodeCompat true)) as (r & Hr & Hm).
  exists r. split; [exact Hr |].
  assert (Ha : hasNodejsAlsFlag r = true).
  { pose proof (Hr []) as E. vm_compute in E. by injection E as <-. }
  split; [by left | apply Hm; by left].
Defined.

(** C6.  The token [experimental:nodejs_compat_v2] is inert for the mode:
    inserting one occurrence anywhere, or filtering all occurrences out,
    leaves the mode unchanged; the reported
    [hasExperimentalNodejsCompatV2Flag] is true exactly when that string is
    in the list; and the token [no_experimental:nodejs_compat_v2], inserted
    anywhere or filtered out, changes nothing in the result. *)
Theorem C6_experimental_flag_is_inert
    (d : option string) (o : option Opts) (l la lb : list string) :
  (∃ r r', returns (getNodeCompat d (la ++ lb) o) r
           ∧ returns (getNodeCompat d
                        (la ++ "experimental:nodejs_compat_v2" :: lb) o) r'
           ∧ mode r' = mode r)
  ∧ (∃ r r', returns (getNodeCompat d l o) r
             ∧ returns (getNodeCompat d
                          (filter (λ t, t ≠ "experimental:nodejs_compat_v2") l)
                          o) r'
             ∧ mode r' = mode r)
  ∧ (∃ r, returns (getNodeCompat d l o) r
          ∧ hasExperimentalNodejsCompatV2Flag r
            = bool_decide ("experimental:nodejs_compat_v2" ∈ l))
  ∧ (∃ r, returns (getNodeCompat d (la ++ lb) o) r
          ∧ returns (getNodeCompat d
                       (la ++ "no_experimental:nodejs_compat_v2" :: lb) o) r)
  ∧ (∃ r, returns (getNodeCompat d l o) r
          ∧ returns (getNodeCompat d
                       (filter (λ t, t ≠ "no_experimental:nodejs_compat_v2") l)
                       o) r).
Proof.
  repeat split.
  - exists (resolved d (la ++ lb) o),
      (resolved d (la ++ experimental_token :: lb) o).
    split; [apply getNodeCompat_returns |].
    split; [apply getNodeCompat_returns |].
    apply resolved_flags_ext, agree_on_insert. not_in_list.
  - exists (resolved d l o),
      (resolved d (filter (λ t, t ≠ experimental_token) l) o).
    split; [apply getNodeCompat_returns |].
    split; [apply getNodeCompat_returns |].
    symmetry. apply resolved_flags_ext, agree_on_filter. not_in_list.
  - exists (resolved d l o). split; [apply getNodeCompat_returns |].
    apply includes_bool_decide.
  - exists (resolved d (la ++ lb) o). split; [apply getNodeCompat_returns |].
    rewrite <- (resolved_ext d o
                  (la ++ "no_experimental:nodejs_compat_v2" :: lb) (la ++ lb)).
    + apply getNodeCompat_returns.
    + apply agree_on_insert. not_in_list.
  - exists (resolved d l o). split; [apply getNodeCompat_returns |].
    rewrite (resolved_ext d o l
               (filter (λ t, t ≠ "no_experimental:nodejs_compat_v2") l)).
    + apply getNodeCompat_returns.
    + apply agree_on_filter. not_in_list.
Qed.

(** C7.  The whole result (mode and the four flag booleans) is the same for
    every permutation of the flag list, and is unchanged when a token of
    the list is inserted once more at any position. *)
Theorem C7_order_and_duplicates
    (d : option string) (o : option Opts) (l : list string) :
  ∃ r, returns (getNodeCompat d l o) r
       ∧ (∀ l', l ≡ₚ l' → returns (getNodeCompat d l' o) r)
       ∧ (∀ la lb t, l = la ++ lb → t ∈ l →
            returns (getNodeCompat d (la ++ t :: lb) o) r).
Proof.
  exists (resolved d l o). split; [apply getNodeCompat_returns |]. split.
  - intros l' Hp.
    rewrite (resolved_ext d o l l') by by apply agree_on_Permutation.
    apply getNodeCompat_returns.
  - intros la lb t -> Ht.
    rewrite <- (resolved_ext d o (la ++ t :: lb) (la ++ lb))
      by by apply agree_on_duplicate.
    apply getNodeCompat_returns.
Qed.

Lemma C7_order_and_duplicates_witness :
  ∃ r, returns (getNodeCompat (Some "2024-09-23")
                  ["nodejs_als"; "nodejs_compat"] None) r
       ∧ returns (getNodeCompat (Some "2024-09-23")
                    ["nodejs_compat"; "nodejs_als"] None) r
       ∧ returns (getNodeCompat (Some "2024-09-23")
                    ["nodejs_als"; "nodejs_als"; "nodejs_compat"] None) r.
Proof.
  destruct (C7_order_and_duplicates (Some "2024-09-23") None
              ["nodejs_als"; "nodejs_compat"]) as (r & Hr & Hp & Hd).
  exists r. split; [exact Hr |]. split.
  - apply Hp. apply perm_swap.
  - apply (Hd ["nodejs_als"] ["nodejs_compat"] "nodejs_als");
      [reflexivity | in_list].
Defined.

(** C8.  For every date string, flag list and options, [getNodeCompat]
    returns a result, from any store, and its mode is one of [legacy],
    [als], [v1], [v2], [null]; a token that is not one the resolver looks
    for can be dropped from the list without changing the result. *)
Theorem C8_total
    (d : option string) (fl : list string) (o : option Opts) :
  ∃ r, returns (getNodeCompat d fl o) r
       ∧ mode r ∈ [legacy; als; v1; v2; null]
       ∧ (∀ la lb t, fl = la ++ t :: lb → t ∉ recognized →
            returns (getNodeCompat d (la ++ lb) o) r).
Proof.
  exists (resolved d fl o). split; [apply getNodeCompat_returns |]. split.
  - destruct (mode (resolved d fl o)); apply list_elem_of_In; simpl; tauto.
  - intros la lb t -> Ht.
    rewrite (resolved_ext d o (la ++ t :: lb) (la ++ lb))
      by by apply agree_on_insert.
    apply getNodeCompat_returns.
Qed.

Lemma C8_total_witness :
  ("nodejs_compat_v3" ∉ recognized)
  ∧ (∃ r, returns (getNodeCompat (Some "not a date")
                     ["nodejs_als"; "nodejs_compat_v3"] None) r
          ∧ returns (getNodeCompat (Some "not a date") ["nodejs_als"] None) r).
Proof.
  split; [not_in_list |].
  destruct (C8_total (Some "not a date")
              ["nodejs_als"; "nodejs_compat_v3"] None) as (r & Hr & _ & Hd).
  exists r. split; [exact Hr |].
  apply (Hd ["nodejs_als"] [] "nodejs_compat_v3"); [reflexivity | not_in_list].
Defined.

(** C9.  Started in any store, the closure-and-mutation code of
    [computeWorkerdCompatibilityFlags] returns exactly the flags of the
    two-step reading [resolvedFlag], which for [X] is
    [(X in list and no_X not in list)] or, for [nodejs_compat_v2] only, the
    base value of [nodejs_compat] and the comparison
    ["2024-09-23" >= compatibilityDate] made at the call site.  The store
    gains three objects and the [nodejs_compat] object keeps its base
    value, so nothing is implied beyond that one hop. *)
Theorem C9_closures_refine_two_steps
    (fl : list string) (d : string) (h : heap) :
  computeWorkerdCompatibilityFlags fl d h
  = Some (resolvedFlags fl d, h ++ allocated fl d)
  ∧ resolvedFlag fl d "nodejs_als"
    = bool_decide ("nodejs_als" ∈ fl ∧ "no_nodejs_als" ∉ fl)
  ∧ resolvedFlag fl d "nodejs_compat"
    = bool_decide ("nodejs_compat" ∈ fl ∧ "no_nodejs_compat" ∉ fl)
  ∧ resolvedFlag fl d "nodejs_compat_v2"
    = bool_decide ("nodejs_compat_v2" ∈ fl ∧ "no_nodejs_compat_v2" ∉ fl)
      || (bool_decide ("nodejs_compat" ∈ fl ∧ "no_nodejs_compat" ∉ fl)
          && JS.str_geb "2024-09-23" d).
Proof.
  assert (Hb : ∀ X, baseValue fl X
                    = bool_decide (X ∈ fl ∧ "no_" +:+ X ∉ fl)).
  { intros X. apply eq_true_iff_eq.
    by rewrite baseValue_true, bool_decide_eq_true. }
  split; [apply computeWorkerdCompatibilityFlags_run |].
  rewrite !resolvedFlag_base by done.
  unfold resolvedFlag, dateCondition. simpl.
  by rewrite <- !Hb.
Qed.

(** C10.  The reported flags are not made exclusive with the mode: with
    [nodejs_compat] in the list and not negated, [hasNodejsCompatFlag] is
    true whatever the mode, so when the mode is [v2] both
    [hasNodejsCompatFlag] and [hasNodejsCompatV2Flag] are true; on
    2024-09-23 the list [nodejs_compat] alone gives such a result. *)
Theorem C10_flags_not_exclusive
    (d : option string) (fl : list string) (o : option Opts) :
  "nodejs_compat" ∈ fl → "no_nodejs_compat" ∉ fl →
  (∃ r, returns (getNodeCompat d fl o) r
        ∧ hasNodejsCompatFlag r = true
        ∧ (mode r = v2 → hasNodejsCompatV2Flag r = true))
  ∧ (∃ r, returns (getNodeCompat (Some "2024-09-23") ["nodejs_compat"] o) r
          ∧ mode r = v2
          ∧ hasNodejsCompatFlag r = true
          ∧ hasNodejsCompatV2Flag r = true).
Proof.
  intros Hc Hnc. split.
  - exists (resolved d fl o). split; [apply getNodeCompat_returns |].
    split.
    + simpl. rewrite resolvedFlag_base by done. by apply baseValue_true.
    + unfold resolved, selectMode. simpl. by repeat case_match.
  - eexists. split; [apply getNodeCompat_returns | done].
Qed.

Lemma C10_flags_not_exclusive_witness :
  "nodejs_compat" ∈ ["nodejs_als"; "nodejs_compat"]
  ∧ ("no_nodejs_compat" ∉ ["nodejs_als"; "nodejs_compat"])
  ∧ (∃ r, returns (getNodeCompat (Some "2024-09-23")
                     ["nodejs_als"; "nodejs_compat"] None) r
          ∧ hasNodejsCompatFlag r = true
          ∧ (mode r = v2 → hasNodejsCompatV2Flag r = true)).
Proof.
  split; [in_list |]. split; [not_in_list |].
  apply (C10_flags_not_exclusive (Some "2024-09-23")
           ["nodejs_als"; "nodejs_compat"] None); [in_list | not_in_list].
Defined.

(** * Further properties of the code *)

(** ** The [Flag] objects and their method *)

Section FlagObjects.

Implicit Types (flag other f a b : Flag) (h : heap) (date : string).

(** Two implications applied in a row to the same receiver: the value ends
    as the disjunction of the original value and of both implications, the
    operands being the values the objects had before the first call, also
    when [a] or [b] is the receiver itself. *)
Lemma impliedByAfterDate_twice_run f a b d1 d2 h (o oa ob : FlagObj) :
  h !! f = Some o → h !! a = Some oa → h !! b = Some ob →
  (impliedByAfterDate f a d1 ≫= λ f', impliedByAfterDate f' b d2) h
  = Some (f,
          <[f := set_value
                   (value o
                    || (value oa
                        && JS.str_geb d1 (compatibilityDate (closure_this o)))
                    || (value ob
                        && JS.str_geb d2 (compatibilityDate (closure_this o))))
                   o]> h).
Proof.
  intros Hf Ha Hb.
  assert (Hlt : f < length h) by (by eapply lookup_lt_Some).
  rewrite bind_run, (impliedByAfterDate_run f a d1 h o oa Hf Ha).
  set (n := set_value _ o).
  assert (Hn : (<[f:=n]> h : heap) !! f = Some n)
    by (by apply list_lookup_insert_eq).
  destruct (decide (f = b)) as [<-|Hne].
  - rewrite (impliedByAfterDate_run f f d2 _ n n Hn Hn).
    do 2 f_equal.
    transitivity (<[f:=set_value
                        (value n
                         || value n
                            && JS.str_geb d2
                                 (compatibilityDate (closure_this n))) n]> h).
    { apply list_insert_insert_eq. }
    f_equal. assert (ob = o) as -> by congruence.
    subst n. unfold set_value. simpl. f_equal.
    by destruct (value o), (value oa), (JS.str_geb d1 _), (JS.str_geb d2 _).
  - assert (Hb' : (<[f:=n]> h : heap) !! b = Some ob).
    { rewrite <- Hb. by apply list_lookup_insert_ne. }
    rewrite (impliedByAfterDate_run f b d2 _ n ob Hn Hb').
    do 2 f_equal.
    transitivity (<[f:=set_value
                        (value n
                         || value ob
                            && JS.str_geb d2
                                 (compatibilityDate (closure_this n))) n]> h).
    { apply list_insert_insert_eq. }
    reflexivity.
Qed.

(** X1.  [impliedByAfterDate] on two live objects returns its receiver,
    keeps the size of the store, leaves every object other than the
    receiver as it was, and sets the receiver to its old value or-ed with
    [other.value && date >= compatibilityDate], the compatibility date being
    that of the receiver's own [Flags] instance.  A true flag stays true. *)
Theorem X1_impliedByAfterDate_frame flag other date h (o o' : FlagObj) :
  h !! flag = Some o → h !! other = Some o' →
  ∃ (h' : heap) (n : FlagObj),
    impliedByAfterDate flag other date h = Some (flag, h')
    ∧ length h' = length h
    ∧ (∀ r : Flag, r ≠ flag → h' !! r = h !! r)
    ∧ h' !! flag = Some n
    ∧ closure_this n = closure_this o
    ∧ value n
      = value o
        || (value o' && JS.str_geb date (compatibilityDate (closure_this o)))
    ∧ (value o = true → value n = true).
Proof.
  intros Hf Ho.
  eexists _, _. split; [by apply (impliedByAfterDate_run _ _ _ _ o o') |].
  split; [apply length_insert |].
  split; [intros r Hr; by apply list_lookup_insert_ne |].
  split; [apply list_lookup_insert_eq; by eapply lookup_lt_Some |].
  split; [done |]. split; [done |].
  simpl. by intros ->.
Qed.

Lemma X1_impliedByAfterDate_frame_witness :
  let F := mkFlags ["nodejs_compat"] "2024-09-23" in
  let h : heap := [mkFlagObj false F; mkFlagObj true F] in
  h !! 0 = Some (mkFlagObj false F) ∧ h !! 1 = Some (mkFlagObj true F)
  ∧ ∃ (h' : heap) (n : FlagObj),
      impliedByAfterDate 0 1 "2024-09-23" h = Some (0, h')
      ∧ length h' = length h
      ∧ (∀ r : Flag, r ≠ 0 → h' !! r = h !! r)
      ∧ h' !! 0 = Some n
      ∧ closure_this n = F
      ∧ value n = false || (true && JS.str_geb "2024-09-23" "2024-09-23")
      ∧ (false = true → value n = true).
Proof.
  intros F h. split; [reflexivity |]. split; [reflexivity |].
  apply (X1_impliedByAfterDate_frame 0 1 "2024-09-23" h
           (mkFlagObj false F) (mkFlagObj true F)); reflexivity.
Defined.

(** X2.  Repeating the same [impliedByAfterDate] call on the returned flag
    changes nothing more: the store after two calls is the store after
    one. *)
Theorem X2_impliedByAfterDate_idempotent flag other date h :
  is_Some (h !! flag) → is_Some (h !! other) →
  is_Some (impliedByAfterDate flag other date h)
  ∧ (impliedByAfterDate flag other date
       ≫= λ f', impliedByAfterDate f' other date) h
    = impliedByAfterDate flag other date h.
Proof.
  intros [o Hf] [o' Ho].
  rewrite (impliedByAfterDate_twice_run _ _ _ _ _ _ o o' o' Hf Ho Ho).
  rewrite (impliedByAfterDate_run _ _ _ _ o o' Hf Ho).
  split; [done |]. do 4 f_equal.
  by destruct (value o), (value o'), (JS.str_geb date _).
Qed.

Lemma X2_impliedByAfterDate_idempotent_witness :
  let F := mkFlags ["nodejs_compat"] "2024-09-23" in
  let h : heap := [mkFlagObj false F; mkFlagObj true F] in
  is_Some (h !! 0) ∧ is_Some (h !! 1)
  ∧ is_Some (impliedByAfterDate 0 1 "2024-09-23" h)
  ∧ (impliedByAfterDate 0 1 "2024-09-23"
       ≫= λ f', impliedByAfterDate f' 1 "2024-09-23") h
    = impliedByAfterDate 0 1 "2024-09-23" h.
Proof.
  intros F h. split; [by eexists |]. split; [by eexists |].
  apply (X2_impliedByAfterDate_idempotent 0 1 "2024-09-23" h); by eexists.
Defined.

(** X3.  A flag implied by itself is left alone:
    [flag.impliedByAfterDate(flag, date)] returns [flag] and the store is
    unchanged, whatever the date. *)
Theorem X3_impliedByAfterDate_self flag date h :
  is_Some (h !! flag) →
  impliedByAfterDate flag flag date h = Some (flag, h).
Proof.
  intros [o Hf].
  rewrite (impliedByAfterDate_run _ _ _ _ o o Hf Hf).
  do 2 f_equal. apply list_insert_id. etrans; [exact Hf |]. f_equal.
  destruct o as [v F]. unfold set_value. simpl. f_equal.
  by destruct v, (JS.str_geb date _).
Qed.

Lemma X3_impliedByAfterDate_self_witness :
  let h : heap := [mkFlagObj false (mkFlags ["nodejs_compat"] "2000-01-01")] in
  is_Some (h !! 0)
  ∧ impliedByAfterDate 0 0 "2024-09-23" h = Some (0, h).
Proof.
  intros h. split; [by eexists |].
  apply (X3_impliedByAfterDate_self 0 "2024-09-23" h). by eexists.
Defined.

(** X4.  [Flags.get] keeps no cache: a second [get] of the same name, made
    after the first object was updated by [impliedByAfterDate], returns a
    different object that holds the base value again, while the first
    object holds the implied value. *)
Theorem X4_Flags_get_is_fresh
    (this : Flags) (name : string) other date h (o' : FlagObj) :
  h !! other = Some o' →
  evalM (f1 ← Flags_get this name;
         f1' ← impliedByAfterDate f1 other date;
         f2 ← Flags_get this name;
         o1 ← deref f1';
         o2 ← deref f2;
         mret (f1', f2, value o1, value o2)) h
  = Some (length h, S (length h),
          baseValue (flags this) name
          || (value o' && JS.str_geb date (compatibilityDate this)),
          baseValue (flags this) name).
Proof.
  intros Ho. unfold evalM.
  rewrite bind_run, Flags_get_run.
  set (o := mkFlagObj (baseValue (flags this) name) this).
  rewrite bind_run, (impliedByAfterDate_run _ _ _ _ o o');
    [| by apply list_lookup_middle
     | rewrite <- Ho; apply lookup_app_l; by eapply lookup_lt_Some].
  set (n := set_value _ o).
  assert (Hins : @insert Flag FlagObj heap list_insert (length h) n (h ++ [o])
                 = h ++ [n]).
  { replace (length h) with (length h + 0) by lia.
    exact (insert_app_r h [o] 0 n). }
  rewrite Hins.
  rewrite bind_run, Flags_get_run.
  rewrite bind_run, (deref_run _ _ n);
    [| rewrite <- (assoc_L (++)); by apply list_lookup_middle].
  rewrite bind_run, (deref_run _ _ o); [| by apply list_lookup_middle].
  simpl. rewrite length_app. simpl.
  by replace (length h + 1) with (S (length h)) by lia.
Qed.

Lemma X4_Flags_get_is_fresh_witness :
  let F := mkFlags ["nodejs_compat"] "2024-09-23" in
  let h : heap := [mkFlagObj true F] in
  h !! 0 = Some (mkFlagObj true F)
  ∧ evalM (f1 ← Flags_get F "nodejs_compat_v2";
           f1' ← impliedByAfterDate f1 0 "2024-09-23";
           f2 ← Flags_get F "nodejs_compat_v2";
           o1 ← deref f1';
           o2 ← deref f2;
           mret (f1', f2, value o1, value o2)) h
    = Some (1, 2, true, false).
Proof.
  intros F h. split; [reflexivity |].
  exact (X4_Flags_get_is_fresh F "nodejs_compat_v2" 0 "2024-09-23" h
           (mkFlagObj true F) eq_refl).
Defined.

(** X5.  Implications commute: applying the implication from [a] and then
    the one from [b] to the same flag leaves the same store as applying
    them in the other order, also when [a] or [b] is the flag itself. *)
Theorem X5_implications_commute f a b d1 d2 h :
  is_Some (h !! f) → is_Some (h !! a) → is_Some (h !! b) →
  is_Some ((impliedByAfterDate f a d1
              ≫= λ f', impliedByAfterDate f' b d2) h)
  ∧ (impliedByAfterDate f a d1 ≫= λ f', impliedByAfterDate f' b d2) h
    = (impliedByAfterDate f b d2 ≫= λ f', impliedByAfterDate f' a d1) h.
Proof.
  intros [o Hf] [oa Ha] [ob Hb].
  rewrite (impliedByAfterDate_twice_run f a b d1 d2 h o oa ob Hf Ha Hb).
  rewrite (impliedByAfterDate_twice_run f b a d2 d1 h o ob oa Hf Hb Ha).
  split; [done |]. do 4 f_equal.
  by destruct (value o), (value oa), (value ob),
       (JS.str_geb d1 _), (JS.str_geb d2 _).
Qed.

Lemma X5_implications_commute_witness :
  let F := mkFlags [] "2024-09-23" in
  let h : heap := [mkFlagObj false F; mkFlagObj true F; mkFlagObj false F] in
  is_Some (h !! 0) ∧ is_Some (h !! 1) ∧ is_Some (h !! 2)
  ∧ is_Some ((impliedByAfterDate 0 1 "2024-09-23"
                ≫= λ f', impliedByAfterDate f' 2 "2025-01-01") h)
  ∧ (impliedByAfterDate 0 1 "2024-09-23"
       ≫= λ f', impliedByAfterDate f' 2 "2025-01-01") h
    = (impliedByAfterDate 0 2 "2025-01-01"
         ≫= λ f', impliedByAfterDate f' 1 "2024-09-23") h.
Proof.
  intros F h.
  split; [by eexists |]. split; [by eexists |]. split; [by eexists |].
  apply (X5_implications_commute 0 1 2 "2024-09-23" "2025-01-01" h);
    by eexists.
Defined.

End FlagObjects.

(** ** What each input of the resolver can change *)

Section Inputs.

Implicit Types (d : option string) (fl : list string) (o : option Opts).

Lemma baseValue_present fl (X : string) :
  baseValue fl X = true ↔ present fl X.
Proof. apply baseValue_true. Qed.

Ltac by_cases fl d o :=
  pose proof (baseValue_present fl "nodejs_als");
  pose proof (baseValue_present fl "nodejs_compat");
  pose proof (baseValue_present fl "nodejs_compat_v2");
  unfold resolved, resolvedFlags, resolvedFlag, selectMode; simpl;
  destruct (baseValue fl "nodejs_als"), (baseValue fl "nodejs_compat"),
    (baseValue fl "nodejs_compat_v2"),
    (dateCondition (default default_compatibilityDate d)),
    (nodeCompat_of o); simpl;
  intuition (auto; discriminate).

(** X6.  The mode as a function of the tokens alone, for every date: it is
    [v1] or [v2] exactly when [nodejs_compat] or [nodejs_compat_v2] is
    present (in the list, not negated); [als] exactly when [nodejs_als] is
    present and those two are not; and with none of the three present it is
    [legacy] or [null] according to [nodeCompat]. *)
Theorem X6_mode_by_tokens d fl o :
  ∃ r, returns (getNodeCompat d fl o) r
       ∧ (mode r = v1 ∨ mode r = v2
          ↔ present fl "nodejs_compat" ∨ present fl "nodejs_compat_v2")
       ∧ (mode r = als
          ↔ present fl "nodejs_als" ∧ ¬ present fl "nodejs_compat"
            ∧ ¬ present fl "nodejs_compat_v2")
       ∧ (mode r = legacy
          ↔ nodeCompat_of o = true ∧ ¬ present fl "nodejs_als"
            ∧ ¬ present fl "nodejs_compat"
            ∧ ¬ present fl "nodejs_compat_v2")
       ∧ (mode r = null
          ↔ nodeCompat_of o = false ∧ ¬ present fl "nodejs_als"
            ∧ ¬ present fl "nodejs_compat"
            ∧ ¬ present fl "nodejs_compat_v2").
Proof.
  exists (resolved d fl o). split; [apply getNodeCompat_returns |].
  by_cases fl d o.
Qed.

(** X7.  The compatibility date can only move the mode between [v1] and
    [v2]: for two dates and the same list and options, the flags
    [hasNodejsAlsFlag], [hasNodejsCompatFlag] and
    [hasExperimentalNodejsCompatV2Flag] are equal, and the modes are equal
    or one is [v1] and the other [v2]. *)
Theorem X7_date_switches_v1_v2_only (d1 d2 : option string) fl o :
  ∃ r1 r2, returns (getNodeCompat d1 fl o) r1
           ∧ returns (getNodeCompat d2 fl o) r2
           ∧ hasNodejsAlsFlag r1 = hasNodejsAlsFlag r2
           ∧ hasNodejsCompatFlag r1 = hasNodejsCompatFlag r2
           ∧ hasExperimentalNodejsCompatV2Flag r1
             = hasExperimentalNodejsCompatV2Flag r2
           ∧ (mode r1 = mode r2
              ∨ (mode r1 = v1 ∧ mode r2 = v2)
              ∨ (mode r1 = v2 ∧ mode r2 = v1)).
Proof.
  exists (resolved d1 fl o), (resolved d2 fl o).
  split; [apply getNodeCompat_returns |].
  split; [apply getNodeCompat_returns |].
  unfold resolved, resolvedFlags, resolvedFlag, selectMode. simpl.
  destruct (baseValue fl "nodejs_als"), (baseValue fl "nodejs_compat"),
    (baseValue fl "nodejs_compat_v2"),
    (dateCondition (default default_compatibilityDate d1)),
    (dateCondition (default default_compatibilityDate d2)),
    (nodeCompat_of o); simpl; tauto.
Qed.

(** X8.  The [nodeCompat] option can only move the mode between [legacy]
    and [null]: for two option values and the same date and list, the four
    reported flags are equal, and the modes are equal or one is [legacy]
    and the other [null]. *)
Theorem X8_nodeCompat_switches_legacy_null_only d fl (o1 o2 : option Opts) :
  ∃ r1 r2, returns (getNodeCompat d fl o1) r1
           ∧ returns (getNodeCompat d fl o2) r2
           ∧ hasNodejsAlsFlag r1 = hasNodejsAlsFlag r2
           ∧ hasNodejsCompatFlag r1 = hasNodejsCompatFlag r2
           ∧ hasNodejsCompatV2Flag r1 = hasNodejsCompatV2Flag r2
           ∧ hasExperimentalNodejsCompatV2Flag r1
             = hasExperimentalNodejsCompatV2Flag r2
           ∧ (mode r1 = mode r2
              ∨ (mode r1 = legacy ∧ mode r2 = null)
              ∨ (mode r1 = null ∧ mode r2 = legacy)).
Proof.
  exists (resolved d fl o1), (resolved d fl o2).
  split; [apply getNodeCompat_returns |].
  split; [apply getNodeCompat_returns |].
  unfold resolved, resolvedFlags, resolvedFlag, selectMode. simpl.
  destruct (baseValue fl "nodejs_als"), (baseValue fl "nodejs_compat"),
    (baseValue fl "nodejs_compat_v2"),
    (dateCondition (default default_compatibilityDate d)),
    (nodeCompat_of o1), (nodeCompat_of o2); simpl; tauto.
Qed.

(** X9.  A direct opt-in overrides everything else: with [nodejs_compat_v2]
    in the list and [no_nodejs_compat_v2] not in it, the mode is [v2] and
    [hasNodejsCompatV2Flag] is true, for every date, every other token
    (also [no_nodejs_compat]) and every [nodeCompat]. *)
Theorem X9_direct_v2_opt_in d fl o :
  "nodejs_compat_v2" ∈ fl → "no_nodejs_compat_v2" ∉ fl →
  ∃ r, returns (getNodeCompat d fl o) r
       ∧ mode r = v2 ∧ hasNodejsCompatV2Flag r = true.
Proof.
  intros Hin Hno.
  exists (resolved d fl o). split; [apply getNodeCompat_returns |].
  assert (Hv : baseValue fl "nodejs_compat_v2" = true)
    by (by apply baseValue_true).
  unfold resolved, resolvedFlags, resolvedFlag, selectMode. simpl.
  by rewrite Hv.
Qed.

Lemma X9_direct_v2_opt_in_witness :
  let fl := ["no_nodejs_compat"; "nodejs_compat_v2"; "nodejs_als"] in
  "nodejs_compat_v2" ∈ fl ∧ ("no_nodejs_compat_v2" ∉ fl)
  ∧ (∃ r, returns (getNodeCompat None fl (opts_nodeCompat true)) r
          ∧ mode r = v2 ∧ hasNodejsCompatV2Flag r = true).
Proof.
  intros fl. split; [in_list |]. split; [not_in_list |].
  apply (X9_direct_v2_opt_in None fl (opts_nodeCompat true));
    [in_list | not_in_list].
Defined.

(** X10.  Each reported flag reads only its own tokens: two lists that
    agree on [nodejs_als] and [no_nodejs_als] give the same
    [hasNodejsAlsFlag]; likewise [hasNodejsCompatFlag] for [nodejs_compat]
    and [no_nodejs_compat]; [hasNodejsCompatV2Flag] for those two and
    [nodejs_compat_v2], [no_nodejs_compat_v2]; and
    [hasExperimentalNodejsCompatV2Flag] for its one token. *)
Theorem X10_flags_read_their_own_tokens d o (l1 l2 : list string) :
  ∃ r1 r2,
    returns (getNodeCompat d l1 o) r1 ∧ returns (getNodeCompat d l2 o) r2
    ∧ (agree_on ["nodejs_als"; "no_nodejs_als"] l1 l2 →
       hasNodejsAlsFlag r1 = hasNodejsAlsFlag r2)
    ∧ (agree_on ["nodejs_compat"; "no_nodejs_compat"] l1 l2 →
       hasNodejsCompatFlag r1 = hasNodejsCompatFlag r2)
    ∧ (agree_on ["nodejs_compat"; "no_nodejs_compat";
                 "nodejs_compat_v2"; "no_nodejs_compat_v2"] l1 l2 →
       hasNodejsCompatV2Flag r1 = hasNodejsCompatV2Flag r2)
    ∧ (agree_on ["experimental:nodejs_compat_v2"] l1 l2 →
       hasExperimentalNodejsCompatV2Flag r1
       = hasExperimentalNodejsCompatV2Flag r2).
Proof.
  exists (resolved d l1 o), (resolved d l2 o).
  split; [apply getNodeCompat_returns |].
  split; [apply getNodeCompat_returns |].
  unfold resolved, resolvedFlags. simpl.
  repeat split; intros H.
  - rewrite !resolvedFlag_base by done.
    apply baseValue_ext; apply H; in_list.
  - rewrite !resolvedFlag_base by done.
    apply baseValue_ext; apply H; in_list.
  - unfold resolvedFlag. simpl.
    rewrite (baseValue_ext l1 l2 "nodejs_compat_v2") by (apply H; in_list).
    by rewrite (baseValue_ext l1 l2 "nodejs_compat") by (apply H; in_list).
  - apply includes_ext, H. in_list.
Qed.

Lemma X10_flags_read_their_own_tokens_witness :
  let l1 := ["nodejs_als"; "nodejs_compat"; "no_nodejs_compat_v2"] in
  let l2 := ["no_nodejs_compat"; "nodejs_als"] in
  agree_on ["nodejs_als"; "no_nodejs_als"] l1 l2
  ∧ (∃ r1 r2,
       returns (getNodeCompat None l1 None) r1
       ∧ returns (getNodeCompat None l2 None) r2
       ∧ hasNodejsAlsFlag r1 = hasNodejsAlsFlag r2).
Proof.
  intros l1 l2.
  assert (Ha : agree_on ["nodejs_als"; "no_nodejs_als"] l1 l2).
  { intros t Ht. apply list_elem_of_In in Ht. simpl in Ht.
    destruct Ht as [<-|[<-|[]]]; split; intros Hin;
      apply list_elem_of_In in Hin; simpl in Hin;
      apply list_elem_of_In; simpl; intuition discriminate. }
  split; [exact Ha |].
  destruct (X10_flags_read_their_own_tokens None None l1 l2)
    as (r1 & r2 & H1 & H2 & Hals & _).
  exists r1, r2. split; [exact H1 |]. split; [exact H2 |].
  exact (Hals Ha).
Defined.

End Inputs.

(** ** The handler of [wrangler deploy] *)

Section DeployHandler.

Import Deploy.

Context {ET : ExternalTypes} {EC : ExternalCalls}.

Implicit Types (P : Event → Prop) (args : Args.t).

Lemma emits_ret {A : Type} P (a : A) :
  emits P (λ out, out = Returned a) (mret a).
Proof. intros tr. exists []. by rewrite app_nil_r. Qed.

Lemma emits_throw {A : Type} P (t : Thrown Err) :
  emits P (λ out : Outcome Err A, out = Threw t) (throw t).
Proof. intros tr. exists []. by rewrite app_nil_r. Qed.

Lemma emits_call {A : Type} P (ev : Event) (r : Outcome Err A) :
  P ev → emits P (λ out, out = r) (call ev r).
Proof. intros Hev tr. exists [ev]. repeat split. by constructor. Qed.

Lemma emits_warn P (message : string) :
  P (LoggerWarn message) →
  emits P (λ out, out = Returned tt) (warn message).
Proof. intros Hev tr. exists [LoggerWarn message]. repeat split. by constructor. Qed.

Lemma emits_bind {A B : Type} P (Q1 : Outcome Err A → Prop)
    (Q : Outcome Err B → Prop) (m : IO A) (f : A → IO B) :
  emits P Q1 m →
  (∀ a, Q1 (Returned a) → emits P Q (f a)) →
  (∀ t, Q1 (Threw t) → Q (Threw t)) →
  emits P Q (m ≫= f).
Proof.
  intros Hm Hf Ht tr. destruct (Hm tr) as (new & Htr & Hnew & Hq).
  unfold mbind, IO_bind. destruct (m tr) as [[a|t] tr']; simpl in *; subst tr'.
  - destruct (Hf a Hq (tr ++ new)) as (new' & Htr' & Hnew' & Hq').
    exists (new ++ new'). rewrite Htr', (assoc_L (++)).
    split; [done |]. split; [by apply Forall_app | done].
  - exists new. auto.
Qed.

Lemma emits_assoc {A B C : Type} P (Q : Outcome Err C → Prop)
    (m : IO A) (g : A → IO B) (f : B → IO C) :
  emits P Q (m ≫= λ a, g a ≫= f) → emits P Q ((m ≫= g) ≫= f).
Proof.
  intros Hm tr. destruct (Hm tr) as (new & Htr & Hnew & Hq).
  exists new. unfold mbind, IO_bind in *.
  by destruct (m tr) as [[a|t] tr'].
Qed.

Lemma emits_weaken {A : Type} P (Q Q' : Outcome Err A → Prop) (m : IO A) :
  emits P Q m → (∀ out, Q out → Q' out) → emits P Q' m.
Proof.
  intros Hm HQ tr. destruct (Hm tr) as (new & Htr & Hnew & Hq).
  exists new. auto.
Qed.

(** From the empty trace, [emits] speaks of the whole run. *)
Lemma emits_run P (Q : Outcome Err unit → Prop) args :
  emits P Q (deployHandler args) →
  (∀ ev, ev ∈ trace_of args → P ev) ∧ Q (outcome_of args).
Proof.
  intros Hm. destruct (Hm []) as (new & Htr & Hnew & Hq).
  unfold trace_of, outcome_of. rewrite Htr. simpl.
  split; [| done]. intros ev Hev. by eapply Forall_forall in Hnew.
Qed.


Lemma emits_trace P args :
  emits P (λ _, True) (deployHandler args) →
  ∀ ev, ev ∈ trace_of args → P ev.
Proof. intros Hm. by apply (emits_run P (λ _, True)). Qed.

Lemma emits_outcome (Q : Outcome Err unit → Prop) args :
  emits (λ _, True) Q (deployHandler args) → Q (outcome_of args).
Proof. intros Hm. by apply (emits_run (λ _, True) Q). Qed.

Ltac walk_step :=
  lazy beta iota zeta;
  lazymatch goal with
  | |- emits _ _ (mbind _ (mbind _ _)) => apply emits_assoc
  | |- emits _ _ (mbind _ (call _ _)) =>
      eapply emits_bind;
      [apply emits_call
      | let a := fresh "a" in let Ha := fresh "Ha" in
        lazy beta; intros a Ha
      | let t := fresh "t" in let Ht := fresh "Ht" in
        lazy beta; intros t Ht]
  | |- emits _ _ (mbind _ (warn _)) =>
      eapply emits_bind;
      [apply emits_warn | intros [] _ | lazy beta; intros ? [=]]
  | |- emits _ _ (mbind _ (mret _)) =>
      eapply emits_bind;
      [apply emits_ret
      | lazy beta; intros ? [= ->]
      | lazy beta; intros ? [=]]
  | |- emits _ _ (mbind _ (throw _)) =>
      eapply emits_bind;
      [apply emits_throw
      | lazy beta; intros ? [=]
      | let t := fresh "t" in let Ht := fresh "Ht" in
        lazy beta; intros t Ht]
  | |- emits _ _ (mbind _ (standardPricingWarning _)) =>
      unfold standardPricingWarning
  | |- emits _ _ (mbind _ (if ?c then _ else _)) => destruct c eqn:?
  | |- emits _ _ (mbind _ (match ?x with _ => _ end)) => destruct x eqn:?
  end.

Ltac walk :=
  repeat walk_step;
  try (eapply emits_weaken; [apply emits_call |]).

(** Distinct warning messages. *)
Ltac distinct_messages :=
  let E := fresh in
  intros E; injection E as E; vm_compute in E; discriminate E.

(** X11.  With [--dry-run] nothing is authenticated: no run of the handler
    calls [requireAuth] or emits the [usage_model] warning, and what is
    passed to [deploy], if it gets that far, has no account id. *)
Theorem X11_dry_run_never_authenticates args :
  Args.dryRun args = Some true →
  ∀ ev, ev ∈ trace_of args →
    (∀ c, ev ≠ CallRequireAuth c)
    ∧ ev ≠ LoggerWarn usage_model_warning
    ∧ (∀ props, ev = CallDeploy props →
         Props.accountId props = None ∧ Props.dryRun props = Some true).
Proof.
  intros Hdry.
  apply (emits_trace
           (λ ev, (∀ c, ev ≠ CallRequireAuth c)
                  ∧ ev ≠ LoggerWarn usage_model_warning
                  ∧ (∀ props, ev = CallDeploy props →
                       Props.accountId props = None
                       ∧ Props.dryRun props = Some true))).
  unfold deployHandler. rewrite Hdry. simpl truthy_bool. simpl negb.
  walk.
  all: try done.
  all: lazy beta; split_and!;
    solve [ by intros ? | done | distinct_messages | by intros ? [= <-] ].
Qed.

(** X12.  Without [--dry-run], [deploy] is only ever called with the
    account id that [requireAuth] returned for the same configuration. *)
Theorem X12_deploy_needs_authentication args :
  truthy_bool (Args.dryRun args) = false →
  ∀ ev, ev ∈ trace_of args →
    ∀ props, ev = CallDeploy props →
      ∃ a, requireAuth (Props.config props) = Returned a
           ∧ Props.accountId props = Some a.
Proof.
  intros Hdry.
  apply (emits_trace
           (λ ev, ∀ props, ev = CallDeploy props →
                    ∃ a, requireAuth (Props.config props) = Returned a
                         ∧ Props.accountId props = Some a)).
  unfold deployHandler. rewrite Hdry. simpl negb.
  walk.
  all: try done.
  all: lazy beta; intros props E;
    first [ discriminate E | injection E as <-; simpl; eauto ].
Qed.

(** X13.  Nothing is authenticated or deployed for arguments that fail the
    checks: whenever [requireAuth] or [deploy] is called, neither
    [--public] nor [--experimental-public] is set, and assets and Workers
    Sites are not both asked for (on the command line or in the
    configuration the call is made for). *)
Theorem X13_checks_come_first args :
  ∀ ev, ev ∈ trace_of args →
    (∀ c, ev = CallRequireAuth c → rejected args c = false)
    ∧ (∀ props, ev = CallDeploy props →
         rejected args (Props.config props) = false).
Proof.
  apply (emits_trace
           (λ ev, (∀ c, ev = CallRequireAuth c → rejected args c = false)
                  ∧ (∀ props, ev = CallDeploy props →
                       rejected args (Props.config props) = false))).
  unfold deployHandler.
  walk.
  all: try done.
  all: lazy beta; split; intros ? E;
    first [ discriminate E | injection E as <- ]; simpl; unfold rejected;
    destruct (truthy_string (Args.public args)),
      (truthy_string (Args.experimentalPublic args)),
      (truthy_string (Args.legacyAssets args)),
      (truthy_string (Args.site args)); simpl in *;
    repeat match goal with
      | |- context [legacy_assets_truthy ?c] =>
          destruct (legacy_assets_truthy c)
      | |- context [site_truthy ?c] => destruct (site_truthy c)
      end; simpl in *; congruence.
Qed.

(** X14.  The checks fail in a fixed order.  With [--public] set the
    handler throws the rename error of [--public]; otherwise with
    [--experimental-public] set, that of [--experimental-public];
    otherwise with both [--assets] and [--site] set, the conflict error.
    The only other way it can end is by rethrowing what one of the calls
    made before the checks threw. *)
Theorem X14_check_errors args (message : string) :
  (if truthy_string (Args.public args) then message = public_error
   else if truthy_string (Args.experimentalPublic args)
        then message = experimental_public_error
        else truthy_string (Args.legacyAssets args) = true
             ∧ truthy_string (Args.site args) = true
             ∧ message = assets_and_sites_error) →
  outcome_of args = Threw (UserError message)
  ∨ (∃ t, outcome_of args = Threw t ∧ thrown_before_checks args t).
Proof.
  intros Hmsg.
  apply (emits_outcome
           (λ out, out = Threw (UserError message)
                   ∨ (∃ t, out = Threw t ∧ thrown_before_checks args t))).
  unfold deployHandler.
  destruct (truthy_string (Args.public args)) eqn:Hpub;
    [| destruct (truthy_string (Args.experimentalPublic args)) eqn:Hexp;
       [| destruct Hmsg as (Hassets & Hsite & Hmsg);
          rewrite Hassets, Hsite; simpl orb; simpl andb ] ];
    subst message; walk.
  all: try done.
  all: lazy beta.
  all: try (left; congruence).
  all: right; eexists; split; [done |]; unfold thrown_before_checks; eauto 10.
Qed.

(** X15.  What reaches [deploy]: the configuration [readConfig] returned
    and the entry [getEntry] returned for it; the compatibility flags and
    [nodeCompat] of the command line, unchanged; as compatibility date the
    first ten characters of the current time in ISO form under [--latest]
    and the date of the command line otherwise; and [noBundle] is the
    negation of [--bundle] when that is given, and the truthiness of
    [no_bundle] in the configuration when it is not. *)
Theorem X15_what_deploy_receives args :
  ∀ ev, ev ∈ trace_of args →
    ∀ props, ev = CallDeploy props →
      (∃ configPath,
         readConfig configPath args = Returned (Props.config props))
      ∧ getEntry args (Props.config props) "deploy"
        = Returned (Props.entry props)
      ∧ Props.compatibilityFlags props = Args.compatibilityFlags args
      ∧ Props.nodeCompat props = Args.nodeCompat args
      ∧ Props.compatibilityDate props
        = (if Args.latest args
           then Some (String.substring 0 10 now_toISOString)
           else Args.compatibilityDate args)
      ∧ Props.noBundle props
        = match Args.bundle args with
          | Some b => negb b
          | None => no_bundle_truthy (Props.config props)
          end.
Proof.
  apply (emits_trace
           (λ ev, ∀ props, ev = CallDeploy props →
              (∃ configPath,
                 readConfig configPath args = Returned (Props.config props))
              ∧ getEntry args (Props.config props) "deploy"
                = Returned (Props.entry props)
              ∧ Props.compatibilityFlags props = Args.compatibilityFlags args
              ∧ Props.nodeCompat props = Args.nodeCompat args
              ∧ Props.compatibilityDate props
                = (if Args.latest args
                   then Some (String.substring 0 10 now_toISOString)
                   else Args.compatibilityDate args)
              ∧ Props.noBundle props
                = match Args.bundle args with
                  | Some b => negb b
                  | None => no_bundle_truthy (Props.config props)
                  end)).
  unfold deployHandler.
  walk.
  all: try done.
  all: lazy beta; intros props E;
    first [ discriminate E | injection E as <- ]; simpl.
  all: split; [eexists; symmetry; eassumption |].
  all: split; [symmetry; assumption |].
  all: do 3 (split; [reflexivity |]).
  all: destruct (Args.bundle args); [reflexivity | apply negb_involutive].
Qed.

End DeployHandler.

(** The handler run in the example world. *)

Section DeployExamples.

Import Deploy Deploy.Example.

Lemma X11_dry_run_never_authenticates_witness :
  let args := Example.args (Some true) None false in
  Args.dryRun args = Some true
  ∧ (∃ props,
       last (trace_of args)
       = Some (CallDeploy props)
       ∧ Props.accountId props = None
       ∧ Props.dryRun props = Some true).
Proof.
  intros args. split; [reflexivity |].
  eexists. split; [reflexivity |].
  eapply (X11_dry_run_never_authenticates
            args eq_refl);
    [apply last_Some_elem_of |]; reflexivity.
Defined.

Lemma X12_deploy_needs_authentication_witness :
  let args := Example.args None None false in
  truthy_bool (Args.dryRun args) = false
  ∧ (∃ props,
       last (trace_of args)
       = Some (CallDeploy props)
       ∧ ∃ a, requireAuth (Props.config props)
              = Returned a
              ∧ Props.accountId props = Some a).
Proof.
  intros args. split; [reflexivity |].
  eexists. split; [reflexivity |].
  eapply (X12_deploy_needs_authentication
            args eq_refl);
    [apply last_Some_elem_of |]; reflexivity.
Defined.

Lemma X13_checks_come_first_witness :
  let args := Example.args None None true in
  ∃ props,
    last (trace_of args)
    = Some (CallDeploy props)
    ∧ rejected args (Props.config props) = false.
Proof.
  intros args.
  eexists. split; [reflexivity |].
  eapply (X13_checks_come_first args);
    [apply last_Some_elem_of |]; reflexivity.
Defined.

Lemma X14_check_errors_witness :
  let args := Example.args None (Some "public") false in
  truthy_string (Args.public args) = true
  ∧ (outcome_of args
     = Threw (UserError public_error)
     ∨ (∃ t, outcome_of args
             = Threw t
             ∧ thrown_before_checks args t)).
Proof.
  intros args. split; [reflexivity |].
  apply (X14_check_errors args
           public_error).
  reflexivity.
Defined.

Lemma X15_what_deploy_receives_witness :
  let args := Example.args None None true in
  ∃ props,
    last (trace_of args)
    = Some (CallDeploy props)
    ∧ Props.compatibilityFlags props = Some ["nodejs_compat"]
    ∧ Props.compatibilityDate props = Some "2024-10-01".
Proof.
  intros args.
  eexists. split; [reflexivity |].
  edestruct (X15_what_deploy_receives args)
    as (_ & _ & Hflags & _ & Hdate & _);
    [apply last_Some_elem_of; reflexivity | reflexivity |].
  split; [exact Hflags | exact Hdate].
Defined.

End DeployExamples.
